(** * A shallow embedding of indicatif's [ProgressBar] (src/progress_bar.rs)

    The bar is an [Arc<Mutex<BarState>>]; a [BarState] pairs a
    [ProgressState] with a [ProgressDrawTarget].  The operations of
    progress_bar.rs are translated one by one below.  The types and methods
    they call that live in state.rs and draw_target.rs are not part of the
    sources at hand; those are marked [Modelled from the spec:] and follow
    the words of the specification.  Numbers are [u64] values kept as [Z]
    with Rust's [saturating_add] written out; time is a [Z] of milliseconds
    read from [Instant::now()] by each call. *)

From Stdlib Require Import ZArith QArith Qminmax String Ascii List Bool.
From stdpp Require Import base gmap list.
Import ListNotations.

Open Scope Z_scope.

(* ------------------------------------------------------------------ *)
(** ** Unsigned 64-bit arithmetic *)

Definition u64_max : Z := 2 ^ 64 - 1.

(** [u64::saturating_add] *)
Definition saturating_add (a b : Z) : Z := Z.min (a + b) u64_max.

(* ------------------------------------------------------------------ *)
(** ** Progress record (state.rs) *)

(** Modelled from the spec: [Status] of state.rs, "status {InProgress,
    Finished}". *)
Inductive Status := InProgress | Finished.

(** Modelled from the spec: the rate estimator of state.rs.  Only its
    reset point is observable to progress_bar.rs ([est.reset(pos)]). *)
Record Estimator := mkEstimator { est_base : Z }.

Definition estimator_reset (pos : Z) : Estimator := {| est_base := pos |}.

(** Modelled from the spec: the on-finish policy of [ProgressStyle], "an
    on-finish cleanup policy (leave vs. clear)". *)
Inductive ProgressFinish := AndLeave | AndClear.

Record ProgressStyle := mkStyle { on_finish : ProgressFinish }.

Definition default_style : ProgressStyle := {| on_finish := AndLeave |}.

(** Modelled from the spec: [ProgressState] of state.rs with the fields
    progress_bar.rs reads and writes; [tick_thread] is [Some handle] in the
    source, here a flag telling whether the handle is present. *)
Record ProgressState := mkState {
  style : ProgressStyle;
  pos : Z;
  len : Z;
  tick : Z;
  started : Z;
  prefix : string;
  message : string;
  status : Status;
  est : Estimator;
  steady_tick : Z;
  tick_thread : bool
}.

Definition set_style (v : ProgressStyle) (s : ProgressState) : ProgressState :=
  mkState v (pos s) (len s) (tick s) (started s) (prefix s) (message s)
    (status s) (est s) (steady_tick s) (tick_thread s).
Definition set_pos (v : Z) (s : ProgressState) : ProgressState :=
  mkState (style s) v (len s) (tick s) (started s) (prefix s) (message s)
    (status s) (est s) (steady_tick s) (tick_thread s).
Definition set_len (v : Z) (s : ProgressState) : ProgressState :=
  mkState (style s) (pos s) v (tick s) (started s) (prefix s) (message s)
    (status s) (est s) (steady_tick s) (tick_thread s).
Definition set_tick (v : Z) (s : ProgressState) : ProgressState :=
  mkState (style s) (pos s) (len s) v (started s) (prefix s) (message s)
    (status s) (est s) (steady_tick s) (tick_thread s).
Definition set_started (v : Z) (s : ProgressState) : ProgressState :=
  mkState (style s) (pos s) (len s) (tick s) v (prefix s) (message s)
    (status s) (est s) (steady_tick s) (tick_thread s).
Definition set_prefix_field (v : string) (s : ProgressState) : ProgressState :=
  mkState (style s) (pos s) (len s) (tick s) (started s) v (message s)
    (status s) (est s) (steady_tick s) (tick_thread s).
Definition set_message_field (v : string) (s : ProgressState) : ProgressState :=
  mkState (style s) (pos s) (len s) (tick s) (started s) (prefix s) v
    (status s) (est s) (steady_tick s) (tick_thread s).
Definition set_status (v : Status) (s : ProgressState) : ProgressState :=
  mkState (style s) (pos s) (len s) (tick s) (started s) (prefix s) (message s)
    v (est s) (steady_tick s) (tick_thread s).
Definition set_est (v : Estimator) (s : ProgressState) : ProgressState :=
  mkState (style s) (pos s) (len s) (tick s) (started s) (prefix s) (message s)
    (status s) v (steady_tick s) (tick_thread s).
Definition set_steady_tick (v : Z) (s : ProgressState) : ProgressState :=
  mkState (style s) (pos s) (len s) (tick s) (started s) (prefix s) (message s)
    (status s) (est s) v (tick_thread s).
Definition set_tick_thread (v : bool) (s : ProgressState) : ProgressState :=
  mkState (style s) (pos s) (len s) (tick s) (started s) (prefix s) (message s)
    (status s) (est s) (steady_tick s) v.

(** Modelled from the spec: [ProgressState::new(len)]. *)
Definition ProgressState_new (len0 : Z) (now : Z) : ProgressState :=
  mkState default_style 0 len0 0 now "" "" InProgress (estimator_reset 0) 0 false.

(** Modelled from the spec: [ProgressState::is_finished]. *)
Definition is_finished (s : ProgressState) : bool :=
  match status s with Finished => true | InProgress => false end.

(** Modelled from the spec: [ProgressState::should_render]; the spec names
    no state in which a bar's own lines are withheld. *)
Definition should_render (s : ProgressState) : bool := true.

(** Modelled from the spec: [ProgressState::fraction], "1.0 if length==0;
    0.0 if length is the unknown sentinel; else clamp(position/length, 0,
    1)".  The float division is taken exactly, in [Q]. *)
Definition fraction (s : ProgressState) : Q :=
  let pct :=
    if len s =? 0 then 1%Q
    else if len s =? u64_max then 0%Q
    else (inject_Z (pos s) / inject_Z (len s))%Q in
  Qmax 0 (Qmin pct 1).

(* ------------------------------------------------------------------ *)
(** ** Draw targets (draw_target.rs) *)

(** What a target hands to its terminal: a painted frame of the bar (the
    formatter is an external pure function of the state, so the snapshot
    stands for its lines), an erased footprint, or out-of-band lines
    (the orphan lines of [println]) followed by the bar's frame when it is
    drawn. *)
Inductive Frame :=
  | Paint (s : ProgressState)
  | Erase
  | Print (orphans : list string) (bar : option ProgressState).

(** Modelled from the spec: [ProgressDrawTarget], "Direct (terminal
    capability + refresh interval + last-draw timestamp + last frame's line
    count), Hidden (all operations no-ops), Remote (index into a Shared
    Region)".  [written] is the sequence of frames the terminal (or the
    region, for [Remote]) has received. *)
Inductive ProgressDrawTarget :=
  | Term (refresh : Z) (last_draw : option Z) (written : list Frame)
  | Hidden
  | Remote (idx : nat) (written : list Frame).

(** Modelled from the spec: [ProgressDrawTarget::stderr()], refreshing at
    most 15 times a second. *)
Definition stderr_target : ProgressDrawTarget := Term (1000 / 15) None [].

(** Modelled from the spec: [ProgressDrawTarget::hidden()]. *)
Definition hidden_target : ProgressDrawTarget := Hidden.

(** Modelled from the spec: [ProgressDrawTarget::is_hidden]. *)
Definition is_hidden (t : ProgressDrawTarget) : bool :=
  match t with Hidden => true | _ => false end.

(** Modelled from the spec: the throttle, "proceeds only if forced or
    elapsed-since-last-paint >= refresh interval". *)
Definition rate_allows (refresh : Z) (last : option Z) (now : Z) : bool :=
  match last with
  | None => true
  | Some l => refresh <=? now - l
  end.

(** Modelled from the spec: [ProgressDrawTarget::drawable(force, now)]:
    [None] when the target declines, otherwise the continuation that hands
    one frame to the terminal and records the paint time. *)
Definition drawable (t : ProgressDrawTarget) (force : bool) (now : Z)
  : option (Frame -> ProgressDrawTarget) :=
  match t with
  | Term r last w =>
      if force || rate_allows r last now
      then Some (fun f => Term r (Some now) (w ++ [f]))
      else None
  | Hidden => None
  | Remote i w => Some (fun f => Remote i (w ++ [f]))
  end.

(** Modelled from the spec: [ProgressDrawTarget::disconnect]; releasing a
    [Remote] slot acts on the shared region, not on the bar. *)
Definition disconnect (t : ProgressDrawTarget) (now : Z) : ProgressDrawTarget := t.

(* ------------------------------------------------------------------ *)
(** ** The bar cell [BarState] (state.rs) *)

Record BarState := mkBar { draw_target : ProgressDrawTarget; state : ProgressState }.

Definition with_state (s : ProgressState) (b : BarState) : BarState :=
  mkBar (draw_target b) s.
Definition with_target (t : ProgressDrawTarget) (b : BarState) : BarState :=
  mkBar t (state b).

(** Modelled from the spec: [BarState::draw(force, now)] hands [f] to the
    target if the target accepts the draw. *)
Definition bar_draw_frame (force : bool) (now : Z) (f : Frame) (b : BarState) : BarState :=
  match drawable (draw_target b) force now with
  | Some k => with_target (k f) b
  | None => b
  end.

Definition bar_draw (force : bool) (now : Z) (b : BarState) : BarState :=
  bar_draw_frame force now (Paint (state b)) b.

(** Modelled from the spec: [BarState::update_and_draw], "apply the
    caller's mutation to the Progress Record, then attempt a redraw"
    (unforced, so throttled). *)
Definition bar_update_and_draw (now : Z) (f : ProgressState -> ProgressState)
  (b : BarState) : BarState :=
  bar_draw false now (with_state (f (state b)) b).

(** Modelled from the spec: the finish family of [BarState].
    finish "snaps position to length (if known), marks Finished, forces a
    final redraw that leaves the frame visible". *)
Definition bar_finish (now : Z) (b : BarState) : BarState :=
  let s := state b in
  let s1 := if len s =? u64_max then s else set_pos (len s) s in
  bar_draw true now (with_state (set_status Finished s1) b).

(** "marks Finished without moving position; forces a final visible redraw" *)
Definition bar_finish_at_current_pos (now : Z) (b : BarState) : BarState :=
  bar_draw true now (with_state (set_status Finished (state b)) b).

(** "sets message then behaves as finish" *)
Definition bar_finish_with_message (msg : string) (now : Z) (b : BarState) : BarState :=
  bar_finish now (with_state (set_message_field msg (state b)) b).

(** "marks Finished and forces a redraw that erases the bar's footprint" *)
Definition bar_finish_and_clear (now : Z) (b : BarState) : BarState :=
  bar_draw_frame true now Erase (with_state (set_status Finished (state b)) b).

(** "marks Finished, explicitly preserving the current position" *)
Definition bar_abandon (now : Z) (b : BarState) : BarState :=
  bar_draw true now (with_state (set_status Finished (state b)) b).

Definition bar_abandon_with_message (msg : string) (now : Z) (b : BarState) : BarState :=
  bar_abandon now (with_state (set_message_field msg (state b)) b).

(** "delegates the leave-vs-clear choice to the style" *)
Definition bar_finish_using_style (now : Z) (b : BarState) : BarState :=
  match on_finish (style (state b)) with
  | AndLeave => bar_finish now b
  | AndClear => bar_finish_and_clear now b
  end.

(* ------------------------------------------------------------------ *)
(** ** [ProgressBar] methods on the locked cell (progress_bar.rs)

    Each method locks [self.state] and acts on the [BarState] inside; the
    functions below are the bodies, run under the lock. *)

(** The tick guard shared by tick, inc, set_position, set_prefix and
    set_message: [if state.steady_tick == 0 || state.tick == 0 { state.tick
    = state.tick.saturating_add(1); }]. *)
Definition tick_guard (s : ProgressState) : ProgressState :=
  if (steady_tick s =? 0) || (tick s =? 0)
  then set_tick (saturating_add (tick s) 1) s
  else s.

(** [ProgressBar::with_draw_target(len, draw_target)] *)
Definition with_draw_target (len0 : Z) (t : ProgressDrawTarget) (now : Z) : BarState :=
  mkBar t (ProgressState_new len0 now).

(** [ProgressBar::new(len)] *)
Definition ProgressBar_new (len0 : Z) (now : Z) : BarState :=
  with_draw_target len0 stderr_target now.

(** [ProgressBar::hidden()] *)
Definition ProgressBar_hidden (now : Z) : BarState :=
  with_draw_target u64_max hidden_target now.

(** The builder-like setters and [set_style], which do not redraw. *)
Definition pb_with_style (v : ProgressStyle) (b : BarState) : BarState :=
  with_state (set_style v (state b)) b.
Definition pb_with_prefix (v : string) (b : BarState) : BarState :=
  with_state (set_prefix_field v (state b)) b.
Definition pb_with_message (v : string) (b : BarState) : BarState :=
  with_state (set_message_field v (state b)) b.
Definition pb_with_position (v : Z) (b : BarState) : BarState :=
  with_state (set_pos v (state b)) b.
Definition pb_with_elapsed (elapsed now : Z) (b : BarState) : BarState :=
  with_state (set_started (now - elapsed) (state b)) b.

(** [ProgressBar::tick] *)
Definition pb_tick (now : Z) (b : BarState) : BarState :=
  bar_update_and_draw now tick_guard b.

(** [ProgressBar::inc] *)
Definition pb_inc (delta now : Z) (b : BarState) : BarState :=
  bar_update_and_draw now
    (fun s => tick_guard (set_pos (saturating_add (pos s) delta) s)) b.

(** [ProgressBar::set_position] *)
Definition pb_set_position (p now : Z) (b : BarState) : BarState :=
  bar_update_and_draw now (fun s => tick_guard (set_pos p s)) b.

(** [ProgressBar::set_length] *)
Definition pb_set_length (l now : Z) (b : BarState) : BarState :=
  bar_update_and_draw now (fun s => set_len l s) b.

(** [ProgressBar::inc_length] *)
Definition pb_inc_length (delta now : Z) (b : BarState) : BarState :=
  bar_update_and_draw now (fun s => set_len (saturating_add (len s) delta) s) b.

(** [ProgressBar::set_prefix] *)
Definition pb_set_prefix (v : string) (now : Z) (b : BarState) : BarState :=
  bar_update_and_draw now (fun s => tick_guard (set_prefix_field v s)) b.

(** [ProgressBar::set_message] *)
Definition pb_set_message (v : string) (now : Z) (b : BarState) : BarState :=
  bar_update_and_draw now (fun s => tick_guard (set_message_field v s)) b.

(** [ProgressBar::reset_eta] *)
Definition pb_reset_eta (now : Z) (b : BarState) : BarState :=
  bar_update_and_draw now (fun s => set_est (estimator_reset (pos s)) s) b.

(** [ProgressBar::reset_elapsed] *)
Definition pb_reset_elapsed (now : Z) (b : BarState) : BarState :=
  bar_update_and_draw now (fun s => set_started now s) b.

(** [ProgressBar::reset]: three locked calls in a row. *)
Definition pb_reset (now : Z) (b : BarState) : BarState :=
  bar_update_and_draw now (fun s => set_status InProgress (set_pos 0 s))
    (pb_reset_elapsed now (pb_reset_eta now b)).

(** [ProgressBar::set_draw_target] *)
Definition pb_set_draw_target (t : ProgressDrawTarget) (now : Z) (b : BarState) : BarState :=
  let _old := disconnect (draw_target b) now in
  mkBar t (state b).

(** [ProgressBar::suspend(f)] for a thunk [f] that does not touch the bar
    (the lock is held while it runs). *)
Definition pb_suspend (now : Z) (b : BarState) : BarState :=
  let b1 := match drawable (draw_target b) true now with
            | Some k => with_target (k Erase) b
            | None => b
            end in
  bar_draw true now b1.

(** [str::lines]: split at ['\n'], drop one trailing ['\r'] from each line,
    no final empty line.  [acc] holds the current line reversed. *)
Definition strip_cr (acc : list ascii) : list ascii :=
  match acc with
  | "013"%char :: rest => rest
  | _ => acc
  end.

Fixpoint lines_aux (s : string) (acc : list ascii) : list string :=
  match s with
  | EmptyString =>
      match acc with
      | [] => []
      | _ => [string_of_list_ascii (rev (strip_cr acc))]
      end
  | String c rest =>
      if Ascii.eqb c "010"%char
      then string_of_list_ascii (rev (strip_cr acc)) :: lines_aux rest []
      else lines_aux rest (c :: acc)
  end.

Definition lines (s : string) : list string := lines_aux s [].

(** [ProgressBar::println(msg)] *)
Definition pb_println (msg : string) (now : Z) (b : BarState) : BarState :=
  let draw_lines := should_render (state b) && negb (is_hidden (draw_target b)) in
  match drawable (draw_target b) true now with
  | None => b
  | Some k =>
      with_target (k (Print (lines msg) (if draw_lines then Some (state b) else None))) b
  end.

(** [ProgressBar::enable_steady_tick(ms)]: the cell after the call, and
    [Some ms] when a tick thread was spawned with that first interval. *)
Definition pb_enable_steady_tick (ms now : Z) (b : BarState) : BarState * option Z :=
  let s1 := set_steady_tick ms (state b) in
  if tick_thread s1 then (with_state s1 b, None)
  else (pb_tick now (with_state (set_tick_thread true s1) b), Some ms).

(** [ProgressBar::disable_steady_tick] *)
Definition pb_disable_steady_tick (now : Z) (b : BarState) : BarState * option Z :=
  pb_enable_steady_tick 0 now b.

(** One pass of the body of [ProgressBar::steady_tick] after the weak
    pointer upgraded, under the lock: the cell afterwards and [Some ms],
    the interval of the next sleep, or [None] when the loop breaks. *)
Definition steady_tick_body (now : Z) (b : BarState) : BarState * option Z :=
  let s := state b in
  if is_finished s || (steady_tick s =? 0) then
    (with_state (set_tick_thread false (set_steady_tick 0 s)) b, None)
  else
    let s1 := if negb (tick s =? 0) then set_tick (saturating_add (tick s) 1) s else s in
    let ms := steady_tick s1 in
    (bar_draw false now (with_state s1 b), Some ms).

(* ------------------------------------------------------------------ *)
(** ** Shared ownership: [Arc<Mutex<BarState>>] and [Weak]

    The heap of [Arc] allocations: each live allocation has its strong
    count and its [BarState].  When the last strong reference goes, the
    value is dropped (the entry is removed); addresses are never reused
    while a [Weak] may still point at them, which [next] models. *)

Record Cell := mkCell { strong : nat; bar : BarState }.

Record Store := mkStore { cells : gmap nat Cell; next : nat }.

Definition empty_store : Store := mkStore ∅ 0.

(** [ProgressBar { state: Arc<Mutex<BarState>> }] *)
Record ProgressBar := mkPB { pb_state : nat }.

(** [WeakProgressBar { state: Weak<Mutex<BarState>> }]; [None] is the
    dangling pointer of [Weak::new()]. *)
Record WeakProgressBar := mkWeak { wk_state : option nat }.

(** [Arc::new(Mutex::new(b))] *)
Definition arc_new (b : BarState) (st : Store) : ProgressBar * Store :=
  (mkPB (next st), mkStore (<[next st := mkCell 1 b]> (cells st)) (S (next st))).

(** [Clone for ProgressBar] (derived): [Arc::clone]. *)
Definition pb_clone (p : ProgressBar) (st : Store) : ProgressBar * Store :=
  match cells st !! pb_state p with
  | Some c => (p, mkStore (<[pb_state p := mkCell (S (strong c)) (bar c)]> (cells st)) (next st))
  | None => (p, st)
  end.

(** [Drop for Arc]: the value goes with its last strong reference. *)
Definition pb_drop (p : ProgressBar) (st : Store) : Store :=
  match cells st !! pb_state p with
  | Some c =>
      if Nat.leb (strong c) 1
      then mkStore (delete (pb_state p) (cells st)) (next st)
      else mkStore (<[pb_state p := mkCell (pred (strong c)) (bar c)]> (cells st)) (next st)
  | None => st
  end.

(** [ProgressBar::downgrade]: [Arc::downgrade(&self.state)]. *)
Definition downgrade (p : ProgressBar) : WeakProgressBar := mkWeak (Some (pb_state p)).

(** [WeakProgressBar::new()] = [Default::default()] = [Weak::new()]. *)
Definition WeakProgressBar_new : WeakProgressBar := mkWeak None.

(** [Weak::upgrade]: [None] for the dangling pointer or a dropped value,
    otherwise a new strong reference. *)
Definition weak_upgrade (w : WeakProgressBar) (st : Store) : option ProgressBar * Store :=
  match wk_state w with
  | None => (None, st)
  | Some l =>
      match cells st !! l with
      | Some c =>
          if Nat.eqb (strong c) 0 then (None, st)
          else (Some (mkPB l), mkStore (<[l := mkCell (S (strong c)) (bar c)]> (cells st)) (next st))
      | None => (None, st)
      end
  end.

(** [WeakProgressBar::upgrade]: [self.state.upgrade().map(|state|
    ProgressBar { state })]. *)
Definition upgrade (w : WeakProgressBar) (st : Store) : option ProgressBar * Store :=
  weak_upgrade w st.

(** Running a locked method on the cell a handle points at. *)
Definition with_lock (p : ProgressBar) (f : BarState -> BarState) (st : Store) : Store :=
  match cells st !! pb_state p with
  | Some c => mkStore (<[pb_state p := mkCell (strong c) (f (bar c))]> (cells st)) (next st)
  | None => st
  end.

(** One wake of the thread spawned by [enable_steady_tick], after its
    sleep: [Some ms] to sleep again for [ms], [None] when it breaks.  The
    upgraded [Arc] is dropped at the end of the pass, so the strong count
    is unchanged afterwards. *)
Definition steady_tick_wake (w : WeakProgressBar) (now : Z) (st : Store) : Store * option Z :=
  match upgrade w st with
  | (Some p, _) =>
      match cells st !! pb_state p with
      | Some c =>
          let '(b', k) := steady_tick_body now (bar c) in
          (mkStore (<[pb_state p := mkCell (strong c) b']> (cells st)) (next st), k)
      | None => (st, None)
      end
  | (None, _) => (st, None)
  end.

(* ------------------------------------------------------------------ *)
(** ** The public operations of a bar, as one step function *)

Inductive Op :=
  | OpTick
  | OpInc (delta : Z)
  | OpSetPosition (p : Z)
  | OpSetLength (l : Z)
  | OpIncLength (delta : Z)
  | OpSetPrefix (v : string)
  | OpSetMessage (v : string)
  | OpResetEta
  | OpResetElapsed
  | OpReset
  | OpFinish
  | OpFinishAtCurrentPos
  | OpFinishWithMessage (v : string)
  | OpFinishAndClear
  | OpAbandon
  | OpAbandonWithMessage (v : string)
  | OpFinishUsingStyle
  | OpSetStyle (v : ProgressStyle)
  | OpWithPrefix (v : string)
  | OpWithMessage (v : string)
  | OpWithPosition (p : Z)
  | OpWithElapsed (e : Z)
  | OpEnableSteadyTick (ms : Z)
  | OpDisableSteadyTick
  | OpSetDrawTarget (t : ProgressDrawTarget)
  | OpSuspend
  | OpPrintln (msg : string)
  | OpSteadyTickWake.

(** The cell after [o] ran at time [now]; [OpSteadyTickWake] is one pass of
    the tick thread's loop body. *)
Definition apply_op (o : Op) (now : Z) (b : BarState) : BarState :=
  match o with
  | OpTick => pb_tick now b
  | OpInc d => pb_inc d now b
  | OpSetPosition p => pb_set_position p now b
  | OpSetLength l => pb_set_length l now b
  | OpIncLength d => pb_inc_length d now b
  | OpSetPrefix v => pb_set_prefix v now b
  | OpSetMessage v => pb_set_message v now b
  | OpResetEta => pb_reset_eta now b
  | OpResetElapsed => pb_reset_elapsed now b
  | OpReset => pb_reset now b
  | OpFinish => bar_finish now b
  | OpFinishAtCurrentPos => bar_finish_at_current_pos now b
  | OpFinishWithMessage v => bar_finish_with_message v now b
  | OpFinishAndClear => bar_finish_and_clear now b
  | OpAbandon => bar_abandon now b
  | OpAbandonWithMessage v => bar_abandon_with_message v now b
  | OpFinishUsingStyle => bar_finish_using_style now b
  | OpSetStyle v => pb_with_style v b
  | OpWithPrefix v => pb_with_prefix v b
  | OpWithMessage v => pb_with_message v b
  | OpWithPosition p => pb_with_position p b
  | OpWithElapsed e => pb_with_elapsed e now b
  | OpEnableSteadyTick ms => fst (pb_enable_steady_tick ms now b)
  | OpDisableSteadyTick => fst (pb_disable_steady_tick now b)
  | OpSetDrawTarget t => pb_set_draw_target t now b
  | OpSuspend => pb_suspend now b
  | OpPrintln msg => pb_println msg now b
  | OpSteadyTickWake => fst (steady_tick_body now b)
  end.

Fixpoint run (ops : list (Op * Z)) (b : BarState) : BarState :=
  match ops with
  | [] => b
  | (o, now) :: rest => run rest (apply_op o now b)
  end.

Definition is_reset (o : Op) : bool :=
  match o with OpReset => true | _ => false end.

(* ================================================================== *)
(** * Lemmas about the embedding *)

Lemma state_bar_draw_frame force now f b :
  state (bar_draw_frame force now f b) = state b.
Proof. unfold bar_draw_frame. destruct (drawable _ _ _); reflexivity. Qed.

Lemma state_bar_draw force now b : state (bar_draw force now b) = state b.
Proof. apply state_bar_draw_frame. Qed.

Lemma state_update_and_draw now f b :
  state (bar_update_and_draw now f b) = f (state b).
Proof. unfold bar_update_and_draw. rewrite state_bar_draw. reflexivity. Qed.

Lemma status_tick_guard s : status (tick_guard s) = status s.
Proof. unfold tick_guard. destruct (_ || _); reflexivity. Qed.

Lemma state_println msg now b : state (pb_println msg now b) = state b.
Proof. unfold pb_println. destruct (drawable _ _ _); reflexivity. Qed.

Lemma state_suspend now b : state (pb_suspend now b) = state b.
Proof.
  unfold pb_suspend. rewrite state_bar_draw.
  destruct (drawable _ _ _); reflexivity.
Qed.

Create Rewrite HintDb bar_state.
#[export] Hint Rewrite state_bar_draw_frame state_bar_draw state_update_and_draw
  status_tick_guard state_println state_suspend : bar_state.

Lemma finished_status s : is_finished s = true <-> status s = Finished.
Proof. unfold is_finished. destruct (status s); split; congruence. Qed.

Ltac bar_simpl :=
  repeat (cbn [fst snd state draw_target with_state with_target set_pos set_len set_tick
                set_status set_message_field set_prefix_field set_est set_started set_style
                set_steady_tick set_tick_thread status pos len tick steady_tick
                tick_thread message prefix started est style] in *;
          autorewrite with bar_state in *).

(** Every operation but [reset] keeps a finished bar finished. *)
Lemma apply_op_keeps_finished o now b :
  is_reset o = false ->
  is_finished (state b) = true -> is_finished (state (apply_op o now b)) = true.
Proof.
  intros Ho Hf. apply finished_status in Hf. apply finished_status.
  destruct o; simpl in Ho; try discriminate; simpl apply_op;
    unfold pb_tick, pb_inc, pb_set_position, pb_set_length, pb_inc_length,
      pb_set_prefix, pb_set_message, pb_reset_eta, pb_reset_elapsed,
      bar_finish_using_style, bar_finish, bar_finish_at_current_pos,
      bar_finish_with_message, bar_finish_and_clear, bar_abandon,
      bar_abandon_with_message, pb_disable_steady_tick, pb_enable_steady_tick,
      steady_tick_body, pb_with_style, pb_with_prefix, pb_with_message,
      pb_with_position, pb_with_elapsed, pb_set_draw_target;
    bar_simpl; try assumption; try reflexivity.
  all: repeat (first [ destruct (on_finish _) | destruct (tick_thread _)
                     | destruct (is_finished _ || _) | destruct (negb _) ];
               bar_simpl; try assumption; try reflexivity).
  all: unfold bar_finish, bar_abandon, pb_tick; bar_simpl; try assumption.
  all: reflexivity.
Qed.

Lemma reset_in_progress now b : status (state (pb_reset now b)) = InProgress.
Proof. unfold pb_reset. bar_simpl. reflexivity. Qed.

Lemma run_keeps_finished ops b :
  is_finished (state b) = true ->
  forallb (fun '(o, _) => negb (is_reset o)) ops = true ->
  is_finished (state (run ops b)) = true.
Proof.
  revert b. induction ops as [|[o now] ops IH]; intros b Hf Hops; simpl in *; [assumption|].
  apply andb_prop in Hops as [Ho Hops].
  apply IH; [|assumption].
  apply apply_op_keeps_finished; [destruct (is_reset o); simpl in *; congruence | assumption].
Qed.

(* ================================================================== *)
(** * Claims *)

(** C1 (as stated): once a bar is finished, no sequence of public
    operations, reset included, makes [is_finished()] false again.
    Refuted: [reset] after [finish] sets the status back to InProgress. *)
Lemma C1_reset_reopens_finished_bar :
  ~ (forall ops b, is_finished (state b) = true -> is_finished (state (run ops b)) = true).
Proof.
  intros H.
  specialize (H [(OpReset, 2)] (bar_finish 1 (ProgressBar_new 10 0)) eq_refl).
  discriminate H.
Qed.

(** C1 (amended): a finished bar stays finished under every sequence of
    public operations (and steady-tick passes) that contains no [reset];
    [reset] sets the status back to InProgress and the position to 0, so
    [is_finished()] is false after it. *)
Theorem C1_finished_is_terminal_except_reset ops b :
  is_finished (state b) = true ->
  forallb (fun '(o, _) => negb (is_reset o)) ops = true ->
  is_finished (state (run ops b)) = true /\
  (forall now, status (state (pb_reset now (run ops b))) = InProgress /\
               pos (state (pb_reset now (run ops b))) = 0 /\
               is_finished (state (pb_reset now (run ops b))) = false).
Proof.
  intros Hf Hops. split.
  - apply run_keeps_finished; assumption.
  - intros now. unfold is_finished. rewrite reset_in_progress.
    split; [reflexivity|]. split; [|reflexivity].
    unfold pb_reset. bar_simpl. reflexivity.
Qed.

Lemma C1_finished_is_terminal_except_reset_witness :
  let b := bar_finish 0 (ProgressBar_new 10 0) in
  let ops := [(OpInc 3, 1); (OpTick, 2); (OpAbandon, 3)] in
  (is_finished (state b) = true /\
   forallb (fun '(o, _) => negb (is_reset o)) ops = true) /\
  (is_finished (state (run ops b)) = true /\
   (forall now, status (state (pb_reset now (run ops b))) = InProgress /\
                pos (state (pb_reset now (run ops b))) = 0 /\
                is_finished (state (pb_reset now (run ops b))) = false)).
Proof.
  simpl. split; [split; reflexivity|].
  apply (C1_finished_is_terminal_except_reset
           [(OpInc 3, 1); (OpTick, 2); (OpAbandon, 3)] (bar_finish 0 (ProgressBar_new 10 0)));
    reflexivity.
Defined.

Lemma pos_tick_guard s : pos (tick_guard s) = pos s.
Proof. unfold tick_guard. destruct (_ || _); reflexivity. Qed.
Lemma len_tick_guard s : len (tick_guard s) = len s.
Proof. unfold tick_guard. destruct (_ || _); reflexivity. Qed.
Lemma steady_tick_tick_guard s : steady_tick (tick_guard s) = steady_tick s.
Proof. unfold tick_guard. destruct (_ || _); reflexivity. Qed.
Lemma tick_tick_guard s :
  tick (tick_guard s) =
  if (steady_tick s =? 0) || (tick s =? 0) then saturating_add (tick s) 1 else tick s.
Proof. unfold tick_guard. destruct (_ || _); reflexivity. Qed.

#[export] Hint Rewrite pos_tick_guard len_tick_guard steady_tick_tick_guard : bar_state.

(** The last frame a target has received. *)
Definition last_frame (t : ProgressDrawTarget) : option Frame :=
  match t with
  | Term _ _ w => last w
  | Hidden => None
  | Remote _ w => last w
  end.

(** The seven explicit mutating calls of C4, and the two of them that change
    the length. *)
Definition mutating_op (o : Op) : bool :=
  match o with
  | OpTick | OpInc _ | OpSetPosition _ | OpSetLength _ | OpIncLength _
  | OpSetPrefix _ | OpSetMessage _ => true
  | _ => false
  end.

Definition length_op (o : Op) : bool :=
  match o with OpSetLength _ | OpIncLength _ => true | _ => false end.

(** C2 (as stated): creating a bar of length 1, calling [inc(2)] and then
    [finish()] leaves [position()] at 2.  Refuted on the test's own run
    ([test_pbar_overflow]: hidden target, [inc(2)], [finish()]): [finish]
    snaps the position to the known length 1. *)
Lemma C2_finish_snaps_overflowed_position :
  pos (state (bar_finish 3 (pb_inc 2 2
         (pb_set_draw_target hidden_target 1 (ProgressBar_new 1 0))))) <> 2.
Proof. vm_compute. discriminate. Qed.

(** C2 (amended): on every bar, [inc(delta)] sets the position to the
    saturating sum and leaves the length alone, so it is not clamped to the
    length (nor is [set_position]); a following [finish()] completes, marks
    the bar finished, and snaps the position to the length when the length
    is known (keeping the incremented position otherwise). *)
Theorem C2_inc_not_clamped_then_finish_snaps delta t1 t2 b :
  let b1 := pb_inc delta t1 b in
  let b2 := bar_finish t2 b1 in
  pos (state b1) = saturating_add (pos (state b)) delta /\
  len (state b1) = len (state b) /\
  (forall p, pos (state (pb_set_position p t1 b)) = p /\
             len (state (pb_set_position p t1 b)) = len (state b)) /\
  is_finished (state b2) = true /\
  pos (state b2) = (if len (state b) =? u64_max then pos (state b1) else len (state b)).
Proof.
  cbv zeta. unfold pb_inc, pb_set_position, bar_finish. bar_simpl.
  split; [reflexivity|]. split; [reflexivity|].
  split; [intros p; bar_simpl; split; reflexivity|].
  destruct (len (state b) =? u64_max); bar_simpl; split; reflexivity.
Qed.

(** C3: on a bar whose length is known, [finish()] sets the position to the
    length, marks the bar finished, and forces a draw: any non-hidden target
    receives a visible frame of the finished state as its last frame. *)
Theorem C3_finish_completes_known_length now b :
  len (state b) <> u64_max ->
  let b' := bar_finish now b in
  pos (state b') = len (state b) /\ is_finished (state b') = true /\
  (is_hidden (draw_target b) = false -> last_frame (draw_target b') = Some (Paint (state b'))).
Proof.
  intros Hl. cbv zeta. unfold bar_finish.
  apply Z.eqb_neq in Hl. rewrite Hl. bar_simpl.
  split; [reflexivity|]. split; [reflexivity|].
  intros Hh. unfold bar_draw, bar_draw_frame, with_state. cbn [draw_target state].
  destruct (draw_target b) as [r last w| |i w]; simpl in *; try discriminate;
    rewrite last_app; reflexivity.
Qed.

Lemma C3_finish_completes_known_length_witness :
  let b := pb_inc 4 1 (ProgressBar_new 10 0) in
  len (state b) <> u64_max /\
  (let b' := bar_finish 2 b in
   pos (state b') = len (state b) /\ is_finished (state b') = true /\
   (is_hidden (draw_target b) = false -> last_frame (draw_target b') = Some (Paint (state b')))).
Proof.
  cbv zeta. split; [vm_compute; discriminate|].
  apply (C3_finish_completes_known_length 2 (pb_inc 4 1 (ProgressBar_new 10 0))).
  vm_compute. discriminate.
Defined.

(** C4 (as stated): every explicit mutating call, [set_length] included,
    advances the tick counter by one when steady ticking is off.  Refuted:
    [set_length] leaves the counter alone. *)
Lemma C4_set_length_does_not_tick :
  ~ (forall o now b, mutating_op o = true -> steady_tick (state b) = 0 ->
       tick (state (apply_op o now b)) = saturating_add (tick (state b)) 1).
Proof.
  intros H.
  specialize (H (OpSetLength 5) 1 (ProgressBar_new 10 0) eq_refl eq_refl).
  vm_compute in H. discriminate H.
Qed.

(** C4 (amended): [tick], [inc], [set_position], [set_prefix] and
    [set_message] advance the tick counter by one (saturating) when steady
    ticking is off or the counter is 0, and otherwise leave it unchanged;
    [set_length] and [inc_length] never change it. *)
Theorem C4_explicit_calls_tick_counter o now b :
  mutating_op o = true ->
  tick (state (apply_op o now b)) =
  if length_op o then tick (state b)
  else if (steady_tick (state b) =? 0) || (tick (state b) =? 0)
       then saturating_add (tick (state b)) 1
       else tick (state b).
Proof.
  intros Ho.
  destruct o; simpl in Ho; try discriminate; simpl apply_op;
    unfold pb_tick, pb_inc, pb_set_position, pb_set_length, pb_inc_length,
      pb_set_prefix, pb_set_message;
    bar_simpl; rewrite ?tick_tick_guard; bar_simpl; reflexivity.
Qed.

Lemma C4_explicit_calls_tick_counter_witness :
  mutating_op (OpInc 3) = true /\
  tick (state (apply_op (OpInc 3) 1 (ProgressBar_new 10 0))) = 1.
Proof.
  split; [reflexivity|].
  rewrite (C4_explicit_calls_tick_counter (OpInc 3) 1 (ProgressBar_new 10 0) eq_refl).
  reflexivity.
Defined.

(** The bar stored at [l], if its value is still alive. *)
Definition cell_bar (l : nat) (st : Store) : option BarState :=
  bar <$> cells st !! l.

(** A bar with steady ticking on at 100 ms, its tick counter still 0, last
    painted at time 50 on a terminal refreshing every 66 ms, and its tick
    thread's weak pointer. *)
Definition c5_bar : BarState :=
  mkBar (Term 66 (Some 50) [])
    (set_tick_thread true (set_steady_tick 100 (ProgressState_new 10 0))).

Definition c5_store : Store := snd (arc_new c5_bar empty_store).

(** C5 (as stated): on a wake that does not exit, the loop advances the tick
    counter and forces a draw.  Refuted: with the counter at 0 it is left at
    0, and the draw is unforced, so a throttled terminal receives nothing. *)
Lemma C5_wake_neither_ticks_zero_counter_nor_forces_draw :
  let r := steady_tick_wake (mkWeak (Some 0%nat)) 60 c5_store in
  snd r = Some 100 /\
  option_map (fun b => tick (state b)) (cell_bar 0 (fst r)) = Some 0 /\
  option_map (fun b => last_frame (draw_target b)) (cell_bar 0 (fst r)) = Some None.
Proof. vm_compute. repeat split; reflexivity. Qed.

(** C5 (amended): on every wake of the steady-tick loop, with [l] the
    address its weak pointer holds: if the bar's value is gone the loop
    exits leaving the store as it is; if the bar is finished or its interval
    is 0 it sets the interval to 0, clears the thread handle and exits;
    otherwise it advances the tick counter only when that is nonzero
    (saturating), makes an unforced (throttled) draw attempt, and sleeps
    next for the interval read from the bar at this wake.  The strong count
    is unchanged in every case. *)
Theorem C5_steady_tick_wake l now st :
  let w := mkWeak (Some l) in
  match cells st !! l with
  | None => steady_tick_wake w now st = (st, None)
  | Some c =>
      if Nat.eqb (strong c) 0 then steady_tick_wake w now st = (st, None)
      else
        let s := state (bar c) in
        if is_finished s || (steady_tick s =? 0) then
          steady_tick_wake w now st =
          (mkStore (<[l := mkCell (strong c)
                        (with_state (set_tick_thread false (set_steady_tick 0 s)) (bar c))]>
                      (cells st)) (next st), None)
        else
          let s1 := set_tick (if tick s =? 0 then tick s else saturating_add (tick s) 1) s in
          steady_tick_wake w now st =
          (mkStore (<[l := mkCell (strong c) (bar_draw false now (with_state s1 (bar c)))]>
                      (cells st)) (next st), Some (steady_tick s))
  end.
Proof.
  cbv zeta. unfold steady_tick_wake, upgrade, weak_upgrade. cbn [wk_state].
  destruct (cells st !! l) as [c|] eqn:Hc; [|reflexivity].
  destruct (Nat.eqb (strong c) 0) eqn:Hs; [reflexivity|].
  cbn [pb_state]. rewrite Hc.
  unfold steady_tick_body.
  destruct (is_finished (state (bar c)) || (steady_tick (state (bar c)) =? 0)); [reflexivity|].
  destruct (tick (state (bar c)) =? 0) eqn:Ht; simpl.
  - f_equal. f_equal. f_equal. f_equal. f_equal. f_equal.
    destruct (state (bar c)); simpl in *; subst; apply Z.eqb_eq in Ht; subst; reflexivity.
  - reflexivity.
Qed.

(** A bar that has been incremented once at time 0 (tick counter 1, one
    frame painted at 0 on the default terminal). *)
Definition c6_bar : BarState := pb_inc 1 0 (ProgressBar_new 10 0).

(** C6 (as stated): every [enable_steady_tick(ms)] spawns a thread only if
    none is running and then forces one immediate tick and draw.  Refuted:
    with a thread already running the call returns without ticking or
    drawing; and when it does spawn, the [tick()] that follows leaves a
    nonzero counter as it is and its draw is throttled, so nothing is
    painted. *)
Lemma C6_enable_does_not_force_tick_and_draw :
  let '(b1, sp1) := pb_enable_steady_tick 100 5 c6_bar in
  let '(b2, sp2) := pb_enable_steady_tick 50 6 b1 in
  sp1 = Some 100 /\ tick (state b1) = tick (state c6_bar) /\
  draw_target b1 = draw_target c6_bar /\
  sp2 = None /\ tick (state b2) = tick (state b1) /\ draw_target b2 = draw_target b1.
Proof. vm_compute. repeat split; reflexivity. Qed.

(** C6 (amended): every [enable_steady_tick(ms)] stores [ms] as the steady
    interval.  If a tick thread is already running it does nothing else (no
    tick, no draw, no new thread).  Otherwise it spawns exactly one thread,
    whose first interval is [ms], records it on the bar, and then calls
    [tick()] once: an update that advances the counter only when it is 0 or
    [ms] is 0, followed by an unforced, throttled draw attempt. *)
Theorem C6_enable_steady_tick ms now b :
  let '(b', spawned) := pb_enable_steady_tick ms now b in
  steady_tick (state b') = ms /\
  if tick_thread (state b) then
    spawned = None /\ draw_target b' = draw_target b /\
    state b' = set_steady_tick ms (state b)
  else
    let s1 := set_tick_thread true (set_steady_tick ms (state b)) in
    spawned = Some ms /\ tick_thread (state b') = true /\
    state b' = tick_guard s1 /\
    b' = bar_draw false now (mkBar (draw_target b) (tick_guard s1)).
Proof.
  unfold pb_enable_steady_tick. cbn [tick_thread set_steady_tick].
  destruct (tick_thread (state b)); cbn.
  - repeat split; reflexivity.
  - unfold pb_tick. bar_simpl. cbn.
    split; [reflexivity|]. split; [reflexivity|].
    split; [unfold tick_guard; destruct (_ || _); reflexivity|].
    split; reflexivity.
Qed.

Lemma fraction_clamped s : (0 <= fraction s)%Q /\ (fraction s <= 1)%Q.
Proof.
  unfold fraction. split.
  - apply Q.le_max_l.
  - apply Q.max_lub; [discriminate | apply Q.le_min_r].
Qed.

(** C7: with position and length [u64] values, [fraction()] is 1 when the
    length is 0, 0 when the length is the unknown sentinel, lies in [0, 1]
    when position <= length < sentinel, and is 1 when position > length. *)
Theorem C7_fraction_edge_cases s :
  0 <= pos s <= u64_max -> 0 <= len s <= u64_max ->
  (len s = 0 -> (fraction s == 1)%Q) /\
  (len s = u64_max -> (fraction s == 0)%Q) /\
  (pos s <= len s < u64_max -> (0 <= fraction s)%Q /\ (fraction s <= 1)%Q) /\
  (len s < pos s -> (fraction s == 1)%Q).
Proof.
  intros Hp Hl. split; [|split; [|split]].
  - intros H0. unfold fraction. rewrite H0. reflexivity.
  - intros Hm. unfold fraction. rewrite Hm. reflexivity.
  - intros _. apply fraction_clamped.
  - intros Hlt. unfold fraction.
    destruct (len s =? 0) eqn:H0; [reflexivity|].
    destruct (len s =? u64_max) eqn:Hm.
    { apply Z.eqb_eq in Hm. lia. }
    apply Z.eqb_neq in H0.
    assert (H1 : (1 <= inject_Z (pos s) / inject_Z (len s))%Q).
    { apply Qle_shift_div_l.
      - unfold Qlt. simpl. lia.
      - rewrite Qmult_1_l. rewrite <- Zle_Qle. lia. }
    rewrite (Q.min_r _ _ H1). apply Q.max_r. discriminate.
Qed.

Lemma C7_fraction_edge_cases_witness :
  let s := state (pb_inc 7 1 (ProgressBar_new 4 0)) in
  (0 <= pos s <= u64_max /\ 0 <= len s <= u64_max) /\
  ((len s = 0 -> (fraction s == 1)%Q) /\
   (len s = u64_max -> (fraction s == 0)%Q) /\
   (pos s <= len s < u64_max -> (0 <= fraction s)%Q /\ (fraction s <= 1)%Q) /\
   (len s < pos s -> (fraction s == 1)%Q)).
Proof.
  cbv zeta. split; [vm_compute; split; split; discriminate|].
  apply C7_fraction_edge_cases; vm_compute; split; discriminate.
Defined.

(* ------------------------------------------------------------------ *)
(** ** Clients holding handles *)

(** What a program does with [ProgressBar] handles: create one, clone or
    drop the [i]-th handle it holds, upgrade a weak handle (keeping the new
    handle on success), or call a locked method through the [i]-th handle. *)
Inductive HandleOp :=
  | HNew (len0 now : Z)
  | HClone (i : nat)
  | HDrop (i : nat)
  | HUpgrade (w : WeakProgressBar)
  | HLocked (i : nat) (o : Op) (now : Z).

Definition hstep (op : HandleOp) (w : Store * list ProgressBar) : Store * list ProgressBar :=
  let '(st, hs) := w in
  match op with
  | HNew l now => let '(p, st') := arc_new (ProgressBar_new l now) st in (st', p :: hs)
  | HClone i =>
      match hs !! i with
      | Some p => let '(p', st') := pb_clone p st in (st', p' :: hs)
      | None => (st, hs)
      end
  | HDrop i =>
      match hs !! i with
      | Some p => (pb_drop p st, delete i hs)
      | None => (st, hs)
      end
  | HUpgrade wk =>
      match upgrade wk st with
      | (Some p, st') => (st', p :: hs)
      | (None, st') => (st', hs)
      end
  | HLocked i o now =>
      match hs !! i with
      | Some p => (with_lock p (apply_op o now) st, hs)
      | None => (st, hs)
      end
  end.

Fixpoint hrun (ops : list HandleOp) (w : Store * list ProgressBar) : Store * list ProgressBar :=
  match ops with
  | [] => w
  | op :: rest => hrun rest (hstep op w)
  end.

(** How many of the handles held point at [l]. *)
Fixpoint count_loc (l : nat) (hs : list ProgressBar) : nat :=
  match hs with
  | [] => 0
  | p :: rest => (if Nat.eqb (pb_state p) l then 1 else 0) + count_loc l rest
  end.

(** The strong count of every live allocation is the number of handles
    held on it, no live allocation has strong count 0, a dropped one has
    no handle, and nothing lives at or above [next]. *)
Definition handles_inv (w : Store * list ProgressBar) : Prop :=
  let '(st, hs) := w in
  (forall l, match cells st !! l with
             | Some c => strong c = count_loc l hs /\ strong c <> 0%nat
             | None => count_loc l hs = 0%nat
             end) /\
  (forall l, (next st <= l)%nat -> cells st !! l = None).

Lemma count_loc_delete l hs i p :
  hs !! i = Some p ->
  count_loc l hs = ((if Nat.eqb (pb_state p) l then 1 else 0) + count_loc l (delete i hs))%nat.
Proof.
  revert i. induction hs as [|q hs IH]; intros i Hi; [discriminate|].
  destruct i as [|i]; simpl in Hi |- *.
  - injection Hi as ->. reflexivity.
  - rewrite (IH i Hi). lia.
Qed.

Lemma count_loc_pos l hs i p :
  hs !! i = Some p -> pb_state p = l -> (0 < count_loc l hs)%nat.
Proof.
  intros Hi Hp. rewrite (count_loc_delete l hs i p Hi).
  rewrite Hp, Nat.eqb_refl. lia.
Qed.

Lemma count_loc_In l hs : (0 < count_loc l hs)%nat <-> In (mkPB l) hs.
Proof.
  induction hs as [|[q] hs IH]; simpl; [split; [lia | intros []]|].
  destruct (Nat.eqb_spec q l) as [->|Hne]; split; intros H.
  - left. reflexivity.
  - lia.
  - right. apply IH. lia.
  - destruct H as [H|H]; [congruence|]. apply IH in H. lia.
Qed.

Lemma handles_inv_empty : handles_inv (empty_store, []).
Proof. split; intros l; simpl; rewrite ?lookup_empty; auto. Qed.

Ltac above_next Hn Hp :=
  let l := fresh "l" in let Hl := fresh "Hl" in let Hne := fresh "Hne" in
  intros l Hl;
  match goal with
  | |- <[?x := _]> _ !! _ = None =>
      destruct (decide (l = x)) as [->|Hne];
      [rewrite Hn in Hp by assumption; discriminate
      | rewrite lookup_insert_ne by congruence; apply Hn; assumption]
  end.

Ltac other_loc Hc :=
  match goal with
  | |- context [Nat.eqb ?a ?b] =>
      rewrite (proj2 (Nat.eqb_neq a b)) by congruence; simpl; apply Hc
  end.

Lemma hstep_inv op w : handles_inv w -> handles_inv (hstep op w).
Proof.
  destruct w as [st hs]. intros [Hc Hn].
  destruct op as [l0 now|i|i|wk|i o now]; simpl.
  - (* HNew *)
    split.
    + intros l. destruct (decide (l = next st)) as [->|Hne].
      * rewrite lookup_insert_eq. simpl. rewrite Nat.eqb_refl.
        specialize (Hc (next st)). rewrite (Hn (next st) (le_n _)) in Hc. split; lia.
      * rewrite lookup_insert_ne by congruence. simpl. other_loc Hc.
    + intros l Hl. simpl in Hl. rewrite lookup_insert_ne by lia. apply Hn. lia.
  - (* HClone *)
    destruct (hs !! i) as [p|] eqn:Hi; [|split; assumption].
    unfold pb_clone. destruct (cells st !! pb_state p) as [c|] eqn:Hp.
    + simpl. split.
      * intros l. destruct (decide (l = pb_state p)) as [->|Hne].
        -- rewrite lookup_insert_eq. simpl. rewrite Nat.eqb_refl.
           specialize (Hc (pb_state p)). rewrite Hp in Hc. lia.
        -- rewrite lookup_insert_ne by congruence. other_loc Hc.
      * above_next Hn Hp.
    + exfalso. specialize (Hc (pb_state p)). rewrite Hp in Hc.
      pose proof (count_loc_pos _ _ _ _ Hi eq_refl). lia.
  - (* HDrop *)
    destruct (hs !! i) as [p|] eqn:Hi; [|split; assumption].
    unfold pb_drop. destruct (cells st !! pb_state p) as [c|] eqn:Hp.
    + pose proof (Hc (pb_state p)) as Hcp. rewrite Hp in Hcp. destruct Hcp as [Hs Hs0].
      pose proof (count_loc_delete (pb_state p) hs i p Hi) as Hd. rewrite Nat.eqb_refl in Hd.
      assert (Hother : forall l, l <> pb_state p ->
                count_loc l (delete i hs) = count_loc l hs).
      { intros l Hne. rewrite (count_loc_delete l hs i p Hi).
        rewrite (proj2 (Nat.eqb_neq _ _)) by congruence. reflexivity. }
      destruct (Nat.leb (strong c) 1) eqn:Hle; simpl; split.
      * intros l. destruct (decide (l = pb_state p)) as [->|Hne].
        -- rewrite lookup_delete_eq. apply Nat.leb_le in Hle. lia.
        -- rewrite lookup_delete_ne by congruence. rewrite Hother by assumption. apply Hc.
      * intros l Hl. destruct (decide (l = pb_state p)) as [->|Hne];
          [apply lookup_delete_eq|].
        rewrite lookup_delete_ne by congruence. apply Hn; assumption.
      * intros l. destruct (decide (l = pb_state p)) as [->|Hne].
        -- rewrite lookup_insert_eq. simpl. apply Nat.leb_gt in Hle. lia.
        -- rewrite lookup_insert_ne by congruence. rewrite Hother by assumption. apply Hc.
      * above_next Hn Hp.
    + exfalso. specialize (Hc (pb_state p)). rewrite Hp in Hc.
      pose proof (count_loc_pos _ _ _ _ Hi eq_refl). lia.
  - (* HUpgrade *)
    unfold upgrade, weak_upgrade. destruct (wk_state wk) as [l0|]; [|split; assumption].
    destruct (cells st !! l0) as [c|] eqn:Hp; [|split; assumption].
    destruct (Nat.eqb (strong c) 0) eqn:Hz; [split; assumption|].
    simpl. split.
    + intros l. destruct (decide (l = l0)) as [->|Hne].
      * rewrite lookup_insert_eq. simpl. rewrite Nat.eqb_refl.
        specialize (Hc l0). rewrite Hp in Hc. lia.
      * rewrite lookup_insert_ne by congruence. other_loc Hc.
    + above_next Hn Hp.
  - (* HLocked *)
    destruct (hs !! i) as [p|] eqn:Hi; [|split; assumption].
    unfold with_lock. destruct (cells st !! pb_state p) as [c|] eqn:Hp; [|split; assumption].
    simpl. split.
    + intros l. destruct (decide (l = pb_state p)) as [->|Hne].
      * rewrite lookup_insert_eq. simpl. specialize (Hc (pb_state p)). rewrite Hp in Hc. exact Hc.
      * rewrite lookup_insert_ne by congruence. apply Hc.
    + above_next Hn Hp.
Qed.

Lemma hrun_inv ops w : handles_inv w -> handles_inv (hrun ops w).
Proof.
  revert w. induction ops as [|op ops IH]; intros w Hw; simpl; [assumption|].
  apply IH, hstep_inv, Hw.
Qed.

(** C8: in every state a program reaches from an empty heap by creating,
    cloning, dropping and upgrading handles and calling methods, a weak
    handle obtained by [downgrade()] from a bar [p] upgrades to [Some p]
    (the same allocation) exactly while some owning handle of that
    allocation is held, and to [None] once the last one has been dropped. *)
Theorem C8_upgrade_while_owned ops p :
  let '(st, hs) := hrun ops (empty_store, []) in
  (In p hs -> fst (upgrade (downgrade p) st) = Some p) /\
  (~ In p hs -> fst (upgrade (downgrade p) st) = None).
Proof.
  pose proof (hrun_inv ops _ handles_inv_empty) as Hinv.
  destruct (hrun ops (empty_store, [])) as [st hs].
  destruct Hinv as [Hc _]. destruct p as [l].
  specialize (Hc l). pose proof (count_loc_In l hs) as Hin.
  unfold upgrade, weak_upgrade, downgrade. cbn [wk_state pb_state].
  destruct (cells st !! l) as [c|]; split; intros H.
  - destruct Hc as [_ Hz]. apply Nat.eqb_neq in Hz. rewrite Hz. reflexivity.
  - exfalso. apply H, Hin. lia.
  - apply Hin in H. lia.
  - reflexivity.
Qed.

(** The frames a target has received. *)
Definition written_of (t : ProgressDrawTarget) : list Frame :=
  match t with
  | Term _ _ w => w
  | Hidden => []
  | Remote _ w => w
  end.

Example lines_crlf : lines ("a" ++ String "010" ("b" ++ String "013" (String "010" "")))%string = ["a"; "b"]%string.
Proof. reflexivity. Qed.

Example lines_empty : lines "" = [].
Proof. reflexivity. Qed.

(** C9: on a hidden (suppressed) target [println(msg)] changes nothing at
    all; on any other target it leaves the bar's state as it is and hands
    the terminal, unthrottled, one frame made of the lines of [msg] as
    out-of-band (orphan) lines followed by the bar's current frame. *)
Theorem C9_println msg now b :
  (is_hidden (draw_target b) = true -> pb_println msg now b = b) /\
  (is_hidden (draw_target b) = false ->
     state (pb_println msg now b) = state b /\
     written_of (draw_target (pb_println msg now b)) =
     written_of (draw_target b) ++ [Print (lines msg) (Some (state b))]).
Proof.
  unfold pb_println. destruct b as [t s]. cbn [draw_target state].
  destruct t as [r last w| |i w]; simpl; split; intros H; try discriminate;
    try reflexivity; split; reflexivity.
Qed.

(** C10: a [WeakProgressBar::new()] (the [Default] weak handle) upgrades to
    [None] in every heap, and the upgrade leaves the heap as it is. *)
Theorem C10_new_weak_never_upgrades st :
  upgrade WeakProgressBar_new st = (None, st).
Proof. reflexivity. Qed.

(** [tests::test_weak_pb] of progress_bar.rs, run on the embedding. *)
Example test_weak_pb :
  let w1 := hrun [HNew 0 0] (empty_store, []) in
  let weak := downgrade (mkPB 0) in
  fst (upgrade weak (fst w1)) = Some (mkPB 0) /\
  fst (upgrade weak (fst (hrun [HDrop 0] w1))) = None.
Proof. split; reflexivity. Qed.

(** [tests::test_pbar_zero] and [tests::test_pbar_maxu64]. *)
Example test_pbar_zero : (fraction (state (ProgressBar_new 0 0)) == 1)%Q.
Proof. reflexivity. Qed.

Example test_pbar_maxu64 : (fraction (state (ProgressBar_new u64_max 0)) == 0)%Q.
Proof. reflexivity. Qed.

(** [tests::test_get_position] *)
Example test_get_position :
  pos (state (pb_inc 2 1 (pb_set_draw_target hidden_target 0 (ProgressBar_new 1 0)))) = 2.
Proof. reflexivity. Qed.

(* ================================================================== *)
(** * Further properties of progress_bar.rs *)

Definition in_u64 (z : Z) : Prop := 0 <= z <= u64_max.

(** A bar incremented once at time 0, then given a steady tick of 100 ms
    at time 5, and the heap holding it. *)
Definition ticking_bar : BarState :=
  fst (pb_enable_steady_tick 100 5 (pb_inc 1 0 (ProgressBar_new 10 0))).

Definition ticking_store : Store := snd (arc_new ticking_bar empty_store).

(** [inc] adds with saturation, and two increments give the same position
    in either order: the position is the saturated sum of both deltas. *)
Theorem inc_saturates_and_commutes d1 d2 t1 t2 b :
  in_u64 (pos (state b)) -> 0 <= d1 -> 0 <= d2 ->
  pos (state (pb_inc d2 t2 (pb_inc d1 t1 b))) = saturating_add (pos (state b)) (d1 + d2) /\
  pos (state (pb_inc d1 t2 (pb_inc d2 t1 b))) = saturating_add (pos (state b)) (d1 + d2).
Proof.
  unfold in_u64, pb_inc, saturating_add. intros Hp H1 H2.
  bar_simpl. split; lia.
Qed.

Lemma inc_saturates_and_commutes_witness :
  (in_u64 (pos (state (ProgressBar_new 10 0))) /\ 0 <= 3 /\ 0 <= u64_max) /\
  (pos (state (pb_inc u64_max 2 (pb_inc 3 1 (ProgressBar_new 10 0)))) =
     saturating_add (pos (state (ProgressBar_new 10 0))) (3 + u64_max) /\
   pos (state (pb_inc 3 2 (pb_inc u64_max 1 (ProgressBar_new 10 0)))) =
     saturating_add (pos (state (ProgressBar_new 10 0))) (3 + u64_max)).
Proof.
  split; [unfold in_u64, u64_max; simpl; lia|].
  apply inc_saturates_and_commutes; unfold in_u64, u64_max; simpl; lia.
Defined.

(** [inc_length] adds to the length with saturation, in either order, and
    leaves the position alone. *)
Theorem inc_length_saturates_and_commutes d1 d2 t1 t2 b :
  in_u64 (len (state b)) -> 0 <= d1 -> 0 <= d2 ->
  len (state (pb_inc_length d2 t2 (pb_inc_length d1 t1 b))) =
    saturating_add (len (state b)) (d1 + d2) /\
  len (state (pb_inc_length d1 t2 (pb_inc_length d2 t1 b))) =
    saturating_add (len (state b)) (d1 + d2) /\
  pos (state (pb_inc_length d2 t2 (pb_inc_length d1 t1 b))) = pos (state b).
Proof.
  unfold in_u64, pb_inc_length, saturating_add. intros Hp H1 H2.
  bar_simpl. repeat split; try reflexivity; lia.
Qed.

Lemma inc_length_saturates_and_commutes_witness :
  (in_u64 (len (state (ProgressBar_new 10 0))) /\ 0 <= 5 /\ 0 <= 7) /\
  (len (state (pb_inc_length 7 2 (pb_inc_length 5 1 (ProgressBar_new 10 0)))) =
     saturating_add (len (state (ProgressBar_new 10 0))) (5 + 7) /\
   len (state (pb_inc_length 5 2 (pb_inc_length 7 1 (ProgressBar_new 10 0)))) =
     saturating_add (len (state (ProgressBar_new 10 0))) (5 + 7) /\
   pos (state (pb_inc_length 7 2 (pb_inc_length 5 1 (ProgressBar_new 10 0)))) =
     pos (state (ProgressBar_new 10 0))).
Proof.
  split; [unfold in_u64, u64_max; simpl; lia|].
  apply inc_length_saturates_and_commutes; unfold in_u64, u64_max; simpl; lia.
Defined.

(** [reset] puts the position at 0 and the status at InProgress, restarts
    the elapsed time at [now], and resets the estimator at the position the
    bar had before the reset ([reset_eta] runs first); length, message,
    prefix, tick counter and steady-tick setting are kept. *)
Theorem reset_fields now b :
  let s := state b in
  let s' := state (pb_reset now b) in
  pos s' = 0 /\ status s' = InProgress /\ started s' = now /\
  est s' = estimator_reset (pos s) /\
  len s' = len s /\ message s' = message s /\ prefix s' = prefix s /\
  tick s' = tick s /\ steady_tick s' = steady_tick s /\ tick_thread s' = tick_thread s.
Proof.
  cbv zeta. unfold pb_reset, pb_reset_elapsed, pb_reset_eta. bar_simpl.
  repeat split; reflexivity.
Qed.

(** The operations after which the steady-tick thread stops at its next
    wake: disabling, and the finish family. *)
Definition stops_ticker (o : Op) : bool :=
  match o with
  | OpDisableSteadyTick | OpFinish | OpFinishAtCurrentPos | OpFinishWithMessage _
  | OpFinishAndClear | OpAbandon | OpAbandonWithMessage _ | OpFinishUsingStyle => true
  | _ => false
  end.

Lemma stops_ticker_state o now b :
  stops_ticker o = true ->
  is_finished (state (apply_op o now b)) || (steady_tick (state (apply_op o now b)) =? 0) = true.
Proof.
  intros Ho.
  destruct o; simpl in Ho; try discriminate; simpl apply_op;
    unfold pb_disable_steady_tick, pb_enable_steady_tick, pb_tick,
      bar_finish_using_style, bar_finish, bar_finish_at_current_pos,
      bar_finish_with_message, bar_finish_and_clear, bar_abandon,
      bar_abandon_with_message, is_finished;
    bar_simpl; try reflexivity.
  all: unfold bar_finish, bar_abandon, pb_tick; bar_simpl; try reflexivity.
  all: repeat (first [destruct (tick_thread _) | destruct (on_finish _)];
               unfold bar_finish, bar_finish_and_clear, pb_tick; bar_simpl);
       try reflexivity.
  all: rewrite orb_true_r; reflexivity.
Qed.

(** After [disable_steady_tick()] or any finish-family call through a live
    bar, the steady-tick thread's next wake breaks its loop and leaves the
    bar with no tick thread and interval 0, without touching the strong
    count. *)
Theorem ticker_stops_after_disable_or_finish o now t l st c :
  stops_ticker o = true -> cells st !! l = Some c -> strong c <> 0%nat ->
  let st1 := with_lock (mkPB l) (apply_op o now) st in
  let r := steady_tick_wake (mkWeak (Some l)) t st1 in
  snd r = None /\
  option_map (fun c' => (strong c', tick_thread (state (bar c')), steady_tick (state (bar c'))))
    (cells (fst r) !! l) = Some (strong c, false, 0).
Proof.
  intros Ho Hc Hs. cbv zeta.
  unfold with_lock. cbn [pb_state]. rewrite Hc.
  unfold steady_tick_wake, upgrade, weak_upgrade. cbn [wk_state cells next].
  rewrite lookup_insert_eq. cbn [strong bar].
  apply Nat.eqb_neq in Hs. rewrite Hs. cbn [pb_state cells].
  rewrite lookup_insert_eq. cbn [strong bar].
  unfold steady_tick_body. rewrite (stops_ticker_state o now (bar c) Ho).
  cbn. rewrite lookup_insert_eq. split; reflexivity.
Qed.

Lemma ticker_stops_after_disable_or_finish_witness :
  (stops_ticker OpDisableSteadyTick = true /\
   cells ticking_store !! 0%nat = Some (mkCell 1 ticking_bar) /\ strong (mkCell 1 ticking_bar) <> 0%nat) /\
  (let st1 := with_lock (mkPB 0) (apply_op OpDisableSteadyTick 70) ticking_store in
   let r := steady_tick_wake (mkWeak (Some 0%nat)) 170 st1 in
   snd r = None /\
   option_map (fun c' => (strong c', tick_thread (state (bar c')), steady_tick (state (bar c'))))
     (cells (fst r) !! 0%nat) = Some (strong (mkCell 1 ticking_bar), false, 0)).
Proof.
  split; [split; [reflexivity | split; [reflexivity | discriminate]]|].
  apply (ticker_stops_after_disable_or_finish OpDisableSteadyTick 70 170 0%nat ticking_store
           (mkCell 1 ticking_bar)); [reflexivity | reflexivity | discriminate].
Defined.

(** As its documentation says, with steady ticks enabled (and the counter
    already past 0) [tick()] has no effect on the bar's state. *)
Theorem tick_inert_under_steady_tick now b :
  steady_tick (state b) <> 0 -> tick (state b) <> 0 ->
  state (pb_tick now b) = state b.
Proof.
  intros Hs Ht. unfold pb_tick. bar_simpl. unfold tick_guard.
  apply Z.eqb_neq in Hs, Ht. rewrite Hs, Ht. reflexivity.
Qed.

Lemma tick_inert_under_steady_tick_witness :
  (steady_tick (state ticking_bar) <> 0 /\ tick (state ticking_bar) <> 0) /\
  state (pb_tick 9 ticking_bar) = state ticking_bar.
Proof.
  split; [vm_compute; split; discriminate|].
  apply tick_inert_under_steady_tick; vm_compute; discriminate.
Defined.

(** [suspend] on a target that is not hidden hands the terminal an erase of
    the current frame and then, forced, a fresh frame of the bar, and leaves
    the bar's state alone; on a hidden target it does nothing. *)
Theorem suspend_erases_then_repaints now b :
  (is_hidden (draw_target b) = true -> pb_suspend now b = b) /\
  (is_hidden (draw_target b) = false ->
     state (pb_suspend now b) = state b /\
     written_of (draw_target (pb_suspend now b)) =
     written_of (draw_target b) ++ [Erase; Paint (state b)]).
Proof.
  unfold pb_suspend, bar_draw, bar_draw_frame. destruct b as [t s].
  destruct t as [r last w| |i w]; simpl; split; intros H; try discriminate;
    try reflexivity; split; try reflexivity; rewrite <- app_assoc; reflexivity.
Qed.

Lemma hidden_draw_frame force now f b :
  draw_target b = Hidden -> draw_target (bar_draw_frame force now f b) = Hidden.
Proof. intros H. unfold bar_draw_frame. rewrite H. simpl. exact H. Qed.

Lemma hidden_draw force now b :
  draw_target b = Hidden -> draw_target (bar_draw force now b) = Hidden.
Proof. apply hidden_draw_frame. Qed.

Lemma hidden_update_and_draw now f b :
  draw_target b = Hidden -> draw_target (bar_update_and_draw now f b) = Hidden.
Proof. intros H. apply hidden_draw. exact H. Qed.

Definition is_set_draw_target (o : Op) : bool :=
  match o with OpSetDrawTarget _ => true | _ => false end.

Lemma apply_op_keeps_hidden o now b :
  is_set_draw_target o = false ->
  draw_target b = Hidden -> draw_target (apply_op o now b) = Hidden.
Proof.
  intros Ho H. destruct o; simpl in Ho; try discriminate; simpl apply_op;
    unfold pb_tick, pb_inc, pb_set_position, pb_set_length, pb_inc_length,
      pb_set_prefix, pb_set_message, pb_reset, pb_reset_eta, pb_reset_elapsed,
      bar_finish_using_style, bar_finish, bar_finish_at_current_pos,
      bar_finish_with_message, bar_finish_and_clear, bar_abandon,
      bar_abandon_with_message, pb_disable_steady_tick, pb_enable_steady_tick,
      steady_tick_body, pb_with_style, pb_with_prefix, pb_with_message,
      pb_with_position, pb_with_elapsed, pb_suspend, pb_println;
    try (destruct (on_finish _)); try (destruct (tick_thread _));
    try (destruct (is_finished _ || _)); simpl;
    try (rewrite H; simpl);
    repeat (first [ apply hidden_draw_frame | apply hidden_draw
                  | apply hidden_update_and_draw ]; simpl);
    try assumption; try reflexivity.
Qed.

(** A bar on the hidden target stays on it, and so writes nothing, whatever
    sequence of operations (and steady-tick passes) runs on it, as long as
    none of them is [set_draw_target]. *)
Theorem hidden_bar_stays_hidden ops b :
  draw_target b = Hidden ->
  forallb (fun '(o, _) => negb (is_set_draw_target o)) ops = true ->
  draw_target (run ops b) = Hidden.
Proof.
  revert b. induction ops as [|[o now] ops IH]; intros b Hb Hops; simpl in *; [assumption|].
  apply andb_prop in Hops as [Ho Hops].
  apply IH; [|assumption].
  apply apply_op_keeps_hidden; [destruct (is_set_draw_target o); simpl in *; congruence | assumption].
Qed.

Lemma hidden_bar_stays_hidden_witness :
  let ops := [(OpInc 3, 1); (OpPrintln "log", 2); (OpEnableSteadyTick 10, 3);
              (OpSteadyTickWake, 13); (OpSuspend, 14); (OpFinish, 15)] in
  (draw_target (ProgressBar_hidden 0) = Hidden /\
   forallb (fun '(o, _) => negb (is_set_draw_target o)) ops = true) /\
  draw_target (run ops (ProgressBar_hidden 0)) = Hidden.
Proof.
  cbv zeta. split; [split; reflexivity|].
  apply hidden_bar_stays_hidden; reflexivity.
Defined.

(** Dropping the last owning handle is enough to stop a steady-tick
    thread: in any reachable state where no handle on [l] is held, the
    thread's next wake breaks its loop and changes nothing, since it holds
    only a [Weak]. *)
Theorem ticker_exits_once_unowned ops l now :
  let '(st, hs) := hrun ops (empty_store, []) in
  ~ In (mkPB l) hs -> steady_tick_wake (mkWeak (Some l)) now st = (st, None).
Proof.
  pose proof (hrun_inv ops _ handles_inv_empty) as Hinv.
  destruct (hrun ops (empty_store, [])) as [st hs].
  destruct Hinv as [Hc _]. intros Hn.
  specialize (Hc l). pose proof (count_loc_In l hs) as Hin.
  unfold steady_tick_wake, upgrade, weak_upgrade. cbn [wk_state].
  destruct (cells st !! l) as [c|] eqn:Hl; [|reflexivity].
  exfalso. destruct Hc as [Hs Hz]. apply Hn, Hin. lia.
Qed.

Lemma ticker_exits_once_unowned_witness :
  let ops := [HNew 10 0; HLocked 0 (OpEnableSteadyTick 100) 1; HDrop 0] in
  ~ In (mkPB 0) (snd (hrun ops (empty_store, []))) /\
  steady_tick_wake (mkWeak (Some 0%nat)) 101 (fst (hrun ops (empty_store, []))) =
    (fst (hrun ops (empty_store, [])), None).
Proof.
  cbv zeta. split; [simpl; tauto|].
  pose proof (ticker_exits_once_unowned
                [HNew 10 0; HLocked 0 (OpEnableSteadyTick 100) 1; HDrop 0] 0 101) as H.
  destruct (hrun _ _) as [st hs] eqn:E. simpl in *. apply H.
  assert (hs = []) as -> by (injection E; auto). simpl. tauto.
Defined.

(** The numeric fields of the record are [u64] values. *)
Definition state_u64 (s : ProgressState) : Prop :=
  in_u64 (pos s) /\ in_u64 (len s) /\ in_u64 (tick s) /\ in_u64 (steady_tick s).

(** The [u64] arguments of an operation are [u64] values. *)
Definition op_u64 (o : Op) : Prop :=
  match o with
  | OpInc d | OpIncLength d => in_u64 d
  | OpSetPosition p | OpWithPosition p => in_u64 p
  | OpSetLength l => in_u64 l
  | OpEnableSteadyTick ms => in_u64 ms
  | _ => True
  end.

Ltac split_ifs :=
  repeat match goal with
  | |- context [if ?c then _ else _] => let E := fresh "E" in destruct c eqn:E
  end;
  repeat match goal with
  | H : (_ =? _) = true |- _ => apply Z.eqb_eq in H
  | H : (_ =? _) = false |- _ => apply Z.eqb_neq in H
  end.

Lemma apply_op_u64 o now b :
  op_u64 o -> state_u64 (state b) ->
  state_u64 (state (apply_op o now b)) /\ tick (state b) <= tick (state (apply_op o now b)).
Proof.
  intros Ho Hs. unfold state_u64, in_u64 in *.
  destruct Hs as (Hp & Hl & Ht & Hst).
  destruct o; simpl in Ho; unfold in_u64 in Ho; simpl apply_op;
    unfold pb_tick, pb_inc, pb_set_position, pb_set_length, pb_inc_length,
      pb_set_prefix, pb_set_message, pb_reset, pb_reset_eta, pb_reset_elapsed,
      bar_finish_using_style, bar_finish_at_current_pos,
      bar_finish_with_message, bar_finish_and_clear,
      bar_abandon_with_message, pb_disable_steady_tick, pb_enable_steady_tick,
      steady_tick_body, pb_with_style, pb_with_prefix, pb_with_message,
      pb_with_position, pb_with_elapsed, pb_set_draw_target in *;
    bar_simpl;
    try (destruct (on_finish _)); try (destruct (tick_thread _));
    unfold bar_finish, bar_finish_and_clear, bar_abandon, pb_tick in *; bar_simpl;
    rewrite ?tick_tick_guard; bar_simpl; split_ifs; bar_simpl; simpl;
    unfold saturating_add, u64_max in *; lia.
Qed.

(** Whatever operations run on a bar (and steady-tick passes), as long as
    their arguments are [u64] values, position, length, tick counter and
    steady-tick interval stay [u64] values (nothing overflows: every sum
    saturates), and the tick counter never goes down. *)
Theorem run_stays_u64_tick_monotone ops b :
  Forall (fun '(o, _) => op_u64 o) ops -> state_u64 (state b) ->
  state_u64 (state (run ops b)) /\ tick (state b) <= tick (state (run ops b)).
Proof.
  revert b. induction ops as [|[o now] ops IH]; intros b Hops Hb; simpl.
  - split; [assumption | lia].
  - inversion Hops as [|x y Ho Hrest]; subst.
    destruct (apply_op_u64 o now b Ho Hb) as [H1 H2].
    destruct (IH _ Hrest H1) as [H3 H4]. split; [assumption | lia].
Qed.

Lemma run_stays_u64_tick_monotone_witness :
  let ops := [(OpInc u64_max, 1); (OpInc 5, 2); (OpIncLength u64_max, 3);
              (OpEnableSteadyTick 100, 4); (OpSteadyTickWake, 104); (OpReset, 105);
              (OpFinish, 106)] in
  (Forall (fun '(o, _) => op_u64 o) ops /\ state_u64 (state (ProgressBar_new 10 0))) /\
  (state_u64 (state (run ops (ProgressBar_new 10 0))) /\
   tick (state (ProgressBar_new 10 0)) <= tick (state (run ops (ProgressBar_new 10 0)))).
Proof.
  cbv zeta.
  assert (Hf : Forall (fun '(o, _) => op_u64 o)
            [(OpInc u64_max, 1); (OpInc 5, 2); (OpIncLength u64_max, 3);
             (OpEnableSteadyTick 100, 4); (OpSteadyTickWake, 104); (OpReset, 105);
             (OpFinish, 106)]).
  { repeat constructor; simpl; unfold in_u64, u64_max; lia. }
  assert (Hs : state_u64 (state (ProgressBar_new 10 0))).
  { unfold state_u64, in_u64, u64_max; simpl; lia. }
  split; [split; assumption|].
  apply run_stays_u64_tick_monotone; assumption.
Defined.

Lemma in_strip_cr c acc : In c (strip_cr acc) -> In c acc.
Proof.
  destruct acc as [|a rest]; simpl; [tauto|].
  destruct a as [[] [] [] [] [] [] [] []]; simpl; tauto.
Qed.

Lemma line_of_acc_no_newline acc :
  ~ In "010"%char acc ->
  ~ In "010"%char (list_ascii_of_string (string_of_list_ascii (rev (strip_cr acc)))).
Proof.
  intros H Hin. rewrite list_ascii_of_string_of_list_ascii in Hin.
  apply in_rev, in_strip_cr in Hin. exact (H Hin).
Qed.

Lemma lines_aux_no_newline s acc :
  ~ In "010"%char acc ->
  forall l, In l (lines_aux s acc) -> ~ In "010"%char (list_ascii_of_string l).
Proof.
  revert acc. induction s as [|c rest IH]; intros acc Hacc l Hl; simpl in Hl.
  - destruct acc as [|a acc']; [destruct Hl|].
    destruct Hl as [<-|[]]. apply line_of_acc_no_newline. exact Hacc.
  - destruct (Ascii.eqb_spec c "010"%char) as [->|Hne].
    + destruct Hl as [<-|Hl].
      * apply line_of_acc_no_newline. exact Hacc.
      * apply (IH [] (fun H => H) l Hl).
    + apply (IH (c :: acc)); [|exact Hl].
      intros [H|H]; [congruence | exact (Hacc H)].
Qed.

(** The lines [println] sends as out-of-band lines are the message cut at
    its newlines: none of them contains a newline character. *)
Theorem println_lines_have_no_newline msg l :
  In l (lines msg) -> ~ In "010"%char (list_ascii_of_string l).
Proof. apply lines_aux_no_newline. intros []. Qed.

Lemma println_lines_have_no_newline_witness :
  In "b"%string (lines ("a" ++ String "010" "b")%string) /\
  ~ In "010"%char (list_ascii_of_string "b").
Proof.
  split; [simpl; tauto|].
  apply (println_lines_have_no_newline ("a" ++ String "010" "b")%string).
  simpl. tauto.
Defined.

(** [disable_steady_tick()] is [enable_steady_tick(0)]: on a bar with no
    tick thread it spawns one, with interval 0, and ticks the bar once (the
    counter goes up by one, saturating, since the interval is now 0); the
    interval stored is 0, so that thread's first wake ends it. *)
Theorem disable_without_thread_spawns now b :
  tick_thread (state b) = false ->
  let '(b', spawned) := pb_disable_steady_tick now b in
  spawned = Some 0 /\ tick_thread (state b') = true /\ steady_tick (state b') = 0 /\
  tick (state b') = saturating_add (tick (state b)) 1 /\
  snd (steady_tick_body (now + 0) b') = None.
Proof.
  intros Ht. unfold pb_disable_steady_tick, pb_enable_steady_tick. cbn [tick_thread set_steady_tick].
  rewrite Ht. unfold pb_tick. bar_simpl. rewrite tick_tick_guard. bar_simpl.
  repeat split; try reflexivity.
  unfold steady_tick_body. bar_simpl. rewrite orb_true_r. reflexivity.
Qed.

Lemma disable_without_thread_spawns_witness :
  tick_thread (state (ProgressBar_new 10 0)) = false /\
  (let '(b', spawned) := pb_disable_steady_tick 3 (ProgressBar_new 10 0) in
   spawned = Some 0 /\ tick_thread (state b') = true /\ steady_tick (state b') = 0 /\
   tick (state b') = saturating_add (tick (state (ProgressBar_new 10 0))) 1 /\
   snd (steady_tick_body (3 + 0) b') = None).
Proof.
  split; [reflexivity|].
  apply (disable_without_thread_spawns 3 (ProgressBar_new 10 0)). reflexivity.
Defined.

(** Two distinct handles on the same location count twice. *)
Lemma count_loc_two l hs i j p :
  i <> j -> hs !! i = Some p -> hs !! j = Some p -> pb_state p = l ->
  (2 <= count_loc l hs)%nat.
Proof.
  intros Hij Hi Hj Hp. rewrite (count_loc_delete l hs j p Hj), Hp, Nat.eqb_refl.
  destruct (Nat.lt_ge_cases i j) as [Hlt|Hge].
  - pose proof (count_loc_pos l (delete j hs) i p) as H.
    rewrite list_lookup_delete_lt in H by lia. specialize (H Hi Hp). lia.
  - destruct i as [|i]; [lia|].
    pose proof (count_loc_pos l (delete j hs) i p) as H.
    rewrite list_lookup_delete_ge in H by lia. specialize (H Hi Hp). lia.
Qed.

(** Dropping one of two handles on the same bar (a clone, say) never drops
    the bar: in every program state, when handles [i] and [j] differ and
    point at the same allocation, [drop] of handle [j] only lowers the
    strong count, which was at least 2, and leaves the bar as it was. *)
Theorem drop_of_clone_keeps_bar ops i j p :
  let w := hrun ops (empty_store, []) in
  i <> j -> snd w !! i = Some p -> snd w !! j = Some p ->
  exists c, cells (fst w) !! pb_state p = Some c /\ (2 <= strong c)%nat /\
    cells (fst (hstep (HDrop j) w)) !! pb_state p = Some (mkCell (pred (strong c)) (bar c)).
Proof.
  pose proof (hrun_inv ops _ handles_inv_empty) as Hinv.
  cbv zeta. destruct (hrun ops (empty_store, [])) as [st hs]. simpl.
  intros Hij Hi Hj. destruct Hinv as [Hcnt _].
  pose proof (count_loc_two (pb_state p) hs i j p Hij Hi Hj eq_refl) as H2.
  specialize (Hcnt (pb_state p)).
  destruct (cells st !! pb_state p) as [c|] eqn:Hc; [|lia].
  destruct Hcnt as [Hs _]. exists c. split; [reflexivity|]. split; [lia|].
  rewrite Hj. unfold pb_drop. rewrite Hc.
  destruct (Nat.leb_spec (strong c) 1) as [Hle|_]; [lia|].
  simpl. apply lookup_insert_eq.
Qed.

Lemma drop_of_clone_keeps_bar_witness :
  let w := hrun [HNew 10 0; HLocked 0 (OpInc 3) 1; HClone 0] (empty_store, []) in
  ((1 <> 0)%nat /\ snd w !! 1%nat = Some (mkPB 0) /\ snd w !! 0%nat = Some (mkPB 0)) /\
  (exists c, cells (fst w) !! pb_state (mkPB 0) = Some c /\ (2 <= strong c)%nat /\
    cells (fst (hstep (HDrop 0) w)) !! pb_state (mkPB 0) = Some (mkCell (pred (strong c)) (bar c))).
Proof.
  split; [split; [lia | split; reflexivity]|].
  apply (drop_of_clone_keeps_bar [HNew 10 0; HLocked 0 (OpInc 3) 1; HClone 0] 1 0 (mkPB 0));
    [lia | reflexivity | reflexivity].
Defined.
